(** * entt/core/memory.hpp: helpers for allocation-aware containers

    A shallow embedding of the utilities of [src/entt/core/memory.hpp]:
    [to_address], the three [propagate_on_container_*] rules, and
    [is_power_of_two] / [fast_mod], followed by the properties the
    specification states about them. *)

From Stdlib Require Import ZArith Lia Bool String List Arith PeanoNat Wf_nat.
Import ListNotations.

Local Open Scope Z_scope.

(** * Part I: the program *)

(** ** [std::size_t]

    An unsigned integer type of [digits] value bits
    ([std::numeric_limits<std::size_t>::digits]).  Values are integers in
    [[0, 2^digits)] and arithmetic wraps around modulo [2^digits]. *)

Module size_t.

Definition max_plus_one (digits : Z) : Z := 2 ^ digits.

Definition representable (digits x : Z) : Prop :=
  0 <= x < max_plus_one digits.

Definition wrap (digits x : Z) : Z := x mod max_plus_one digits.

(** [a - b] on [std::size_t] operands: the literal [1] (or [1u]) is
    converted to [std::size_t] and the difference is reduced. *)
Definition sub (digits a b : Z) : Z := wrap digits (a - b).

(** Contextual conversion to [bool]: non-zero is [true]. *)
Definition to_bool (x : Z) : bool := negb (x =? 0).

End size_t.

(** ** [is_power_of_two] and [fast_mod] (lines 80-102) *)

Section PowerOfTwo.

Variable digits : Z.

(** [std::bool_constant<Value && ((Value & (Value - 1)) == 0)>] *)
Definition is_power_of_two (Value : Z) : bool :=
  size_t.to_bool Value && (Z.land Value (size_t.sub digits Value 1) =? 0).

Definition is_power_of_two_v (Value : Z) : bool := is_power_of_two Value.

(** [fast_mod<Value>(value)].  The [static_assert] makes an instantiation
    with a rejected [Value] ill-formed: no function exists then, which is
    the [None] of this embedding. *)
Definition fast_mod (Value value : Z) : option Z :=
  if is_power_of_two_v Value
  then Some (Z.land value (size_t.sub digits Value 1))
  else None.

End PowerOfTwo.

(** What the specification means by a power of two: [2^k] for some [k]. *)
Definition power_of_two (D : Z) : Prop := exists k, 0 <= k /\ D = 2 ^ k.

(** ** Allocators

    The template parameter [Allocator] of the propagation rules.  A type
    used there meets the standard's allocator requirements: [operator==]
    is an equivalence, copy assignment gives the destination the value of
    the source, and move assignment gives the destination the value the
    source had while the source is left with a valid value of the type's
    own choosing ([moved_from]). *)

Class Allocator (A : Type) : Type := {
  alloc_eqb : A -> A -> bool;
  alloc_eqb_refl : forall a, alloc_eqb a a = true;
  alloc_eqb_sym : forall a b, alloc_eqb a b = alloc_eqb b a;
  alloc_eqb_trans :
    forall a b c, alloc_eqb a b = true -> alloc_eqb b c = true ->
                  alloc_eqb a c = true;
  moved_from : A -> A
}.

(** [std::allocator_traits<Allocator>::propagate_on_container_*::value]:
    three constants of the allocator's type. *)

Module allocator_traits.

Class t (A : Type) : Type := {
  propagate_on_container_copy_assignment : bool;
  propagate_on_container_move_assignment : bool;
  propagate_on_container_swap : bool
}.

#[global] Arguments propagate_on_container_copy_assignment A {_}.
#[global] Arguments propagate_on_container_move_assignment A {_}.
#[global] Arguments propagate_on_container_swap A {_}.

End allocator_traits.

(** ** Objects and references

    The rules take [Allocator &lhs, Allocator &rhs]: two references, which
    may be bound to one object.  An object is named by a [ref]; [objects A]
    gives the value each allocator object holds. *)

Definition ref : Type := nat.

Definition objects (A : Type) : Type := ref -> A.

Definition assign {A : Type} (m : objects A) (r : ref) (v : A) : objects A :=
  fun r' => if Nat.eqb r' r then v else m r'.

(** A call either returns, with the objects as it left them, or stops at a
    failed assertion. *)
Inductive outcome (X : Type) : Type :=
| Returns (x : X)
| AssertionFailure (message : string).

Arguments Returns {X} x.
Arguments AssertionFailure {X} message.

Definition Eff (A X : Type) : Type := objects A -> outcome (X * objects A).

Definition ret {A X : Type} (x : X) : Eff A X :=
  fun m => Returns (x, m).

Definition bind {A X Y : Type} (c : Eff A X) (k : X -> Eff A Y) : Eff A Y :=
  fun m =>
    match c m with
    | Returns (x, m') => k x m'
    | AssertionFailure msg => AssertionFailure msg
    end.

Declare Scope eff_scope.
Delimit Scope eff_scope with eff.
Notation "x <- c ;; k" := (bind c (fun x => k))
  (at level 61, c at next level, right associativity) : eff_scope.
Notation "c ;; k" := (bind c (fun _ => k))
  (at level 61, right associativity) : eff_scope.
Local Open Scope eff_scope.

(** Modelled from the spec: [ENTT_ASSERT] is a macro of [config/config.h],
    which is not among the sources.  The specification has a violated
    condition end the call with a fatal assertion failure; a condition that
    holds has no effect. *)
Definition ENTT_ASSERT {A : Type} (condition : bool) (message : string)
  : Eff A unit :=
  fun m => if condition then Returns (tt, m) else AssertionFailure message.

Section Propagation.

Context {A : Type} `{Allocator A} `{allocator_traits.t A}.

Definition read (r : ref) : Eff A A :=
  fun m => Returns (m r, m).

Definition write (r : ref) (v : A) : Eff A unit :=
  fun m => Returns (tt, assign m r v).

(** [lhs == rhs] *)
Definition equal (lhs rhs : ref) : Eff A bool :=
  l <- read lhs ;; r <- read rhs ;; ret (alloc_eqb l r).

(** [lhs = rhs] *)
Definition copy_assign (lhs rhs : ref) : Eff A unit :=
  v <- read rhs ;; write lhs v.

(** [lhs = std::move(rhs)]: the destination takes the value, and the object
    moved from is left with [moved_from] of it (also when both references
    name one object, whose state the standard leaves unspecified then). *)
Definition move_assign (lhs rhs : ref) : Eff A unit :=
  v <- read rhs ;; write lhs v ;; write rhs (moved_from v).

(** [Allocator tmp(std::move(a))] for a local [tmp] *)
Definition move_construct (a : ref) : Eff A A :=
  v <- read a ;; write a (moved_from v) ;; ret v.

(** [using std::swap; swap(a, b)]: the generic swap,
    [T tmp(std::move(a)); a = std::move(b); b = std::move(tmp);]. *)
Definition swap (a b : ref) : Eff A unit :=
  tmp <- move_construct a ;;
  move_assign a b ;;
  write b tmp.

(** Lines 36-41. *)
Definition propagate_on_container_copy_assignment (lhs rhs : ref)
  : Eff A unit :=
  if allocator_traits.propagate_on_container_copy_assignment A
  then copy_assign lhs rhs
  else ret tt.

(** Lines 50-55. *)
Definition propagate_on_container_move_assignment (lhs rhs : ref)
  : Eff A unit :=
  if allocator_traits.propagate_on_container_move_assignment A
  then move_assign lhs rhs
  else ret tt.

(** Lines 64-73.  [pocs || lhs == rhs] compares the allocators only when
    [pocs] is false. *)
Definition propagate_on_container_swap (lhs rhs : ref) : Eff A unit :=
  let pocs := allocator_traits.propagate_on_container_swap A in
  holds <- (if pocs then ret true else equal lhs rhs) ;;
  ENTT_ASSERT holds "Cannot swap the containers" ;;
  if pocs then swap lhs rhs else ret tt.

End Propagation.

(** ** [to_address] (lines 20-27)

    [Ptr] collects the values of the pointer-like types of a program:
    [is_pointer_v] is the test of the [if constexpr] on the value's type and
    [arrow] is its [operator->()].  Each recursive call instantiates the
    template at the type [operator->] returns; [depth] bounds the
    instantiations still allowed, and [None] is a program rejected because
    the bound is exceeded. *)

Section ToAddress.

Context {Ptr : Type}.
Variable is_pointer_v : Ptr -> bool.
Variable arrow : Ptr -> Ptr.

Fixpoint to_address (depth : nat) (ptr : Ptr) : option Ptr :=
  if is_pointer_v ptr then Some ptr
  else match depth with
       | O => None
       | S depth' => to_address depth' (arrow ptr)
       end.

(** [unwraps n w p]: [w] is [n] applications of [operator->] away from the
    raw pointer [p], and nothing before [p] on the way is a raw pointer. *)
Inductive unwraps : nat -> Ptr -> Ptr -> Prop :=
| unwraps_raw (p : Ptr) :
    is_pointer_v p = true -> unwraps O p p
| unwraps_fancy (n : nat) (w p : Ptr) :
    is_pointer_v w = false -> unwraps n (arrow w) p -> unwraps (S n) w p.

(** One step of the recursion: from a fancy pointer to what its
    [operator->] returns. *)
Definition arrow_step (next w : Ptr) : Prop :=
  is_pointer_v w = false /\ next = arrow w.

End ToAddress.

(** ** Sample instances *)

(** An allocator bound to a numbered arena; a moved-from allocator falls
    back to arena 0. *)
Definition arena : Type := nat.

#[export] Instance arena_allocator : Allocator arena := {|
  alloc_eqb := Nat.eqb;
  alloc_eqb_refl := Nat.eqb_refl;
  alloc_eqb_sym := Nat.eqb_sym;
  alloc_eqb_trans := fun a b c Hab Hbc =>
    proj2 (Nat.eqb_eq a c)
          (eq_trans (proj1 (Nat.eqb_eq a b) Hab) (proj1 (Nat.eqb_eq b c) Hbc));
  moved_from := fun _ => O
|}.

Definition propagating : allocator_traits.t arena := {|
  allocator_traits.propagate_on_container_copy_assignment := true;
  allocator_traits.propagate_on_container_move_assignment := true;
  allocator_traits.propagate_on_container_swap := true
|}.

Definition pinned : allocator_traits.t arena := {|
  allocator_traits.propagate_on_container_copy_assignment := false;
  allocator_traits.propagate_on_container_move_assignment := false;
  allocator_traits.propagate_on_container_swap := false
|}.

(** Object 0 holds arena 7, object 1 holds arena 9, every other arena 0. *)
Definition two_allocators : objects arena :=
  assign (assign (fun _ => O) O 7%nat) 1%nat 9%nat.

(** Objects 0 and 1 both hold arena 7. *)
Definition two_equal_allocators : objects arena :=
  assign (assign (fun _ => O) O 7%nat) 1%nat 7%nat.

(** A fancy pointer that wraps a pointer-like value, and a type whose
    [operator->] returns itself. *)
Inductive handle : Type :=
| raw_pointer (address : Z)
| fancy_pointer (inner : handle)
| self_pointer.

Definition handle_is_pointer (h : handle) : bool :=
  match h with raw_pointer _ => true | _ => false end.

Definition handle_arrow (h : handle) : handle :=
  match h with
  | raw_pointer a => raw_pointer a
  | fancy_pointer inner => inner
  | self_pointer => self_pointer
  end.

(** ** Proof automation

    [ref_cases] decides every comparison of references in the goal. *)
Ltac ref_cases :=
  unfold assign;
  repeat match goal with
         | |- context [Nat.eqb ?a ?b] => destruct (Nat.eqb_spec a b); subst
         end;
  try congruence.

(** * Part II: properties *)

(** ** Bit-level facts about powers of two *)

Lemma pow2_pred_is_ones (k : Z) : 0 <= k -> 2 ^ k - 1 = Z.ones k.
Proof.
  intros _. rewrite Z.ones_equiv. lia.
Qed.

Lemma land_pow2_pred (k v : Z) : 0 <= k -> Z.land v (2 ^ k - 1) = v mod 2 ^ k.
Proof.
  intros Hk. rewrite pow2_pred_is_ones by assumption.
  now apply Z.land_ones.
Qed.

Lemma pow2_lt_mono (k w : Z) : 0 <= k < w -> 0 < 2 ^ k < 2 ^ w.
Proof.
  intros [Hk Hw]. split.
  - now apply Z.pow_pos_nonneg.
  - apply Z.pow_lt_mono_r; lia.
Qed.

Lemma sub_one_no_wrap (digits V : Z) :
  0 < V < 2 ^ digits -> size_t.sub digits V 1 = V - 1.
Proof.
  intros HV. unfold size_t.sub, size_t.wrap, size_t.max_plus_one.
  apply Z.mod_small. lia.
Qed.

Lemma sub_one_of_zero_wraps (digits : Z) :
  0 < digits -> size_t.sub digits 0 1 = 2 ^ digits - 1.
Proof.
  intros Hd. unfold size_t.sub, size_t.wrap, size_t.max_plus_one.
  assert (1 < 2 ^ digits) by (apply Z.pow_gt_1; lia).
  replace (0 - 1) with (2 ^ digits - 1 + (-1) * 2 ^ digits) by lia.
  rewrite Z.mod_add by lia. apply Z.mod_small. lia.
Qed.

Lemma is_power_of_two_pow2 (digits k : Z) :
  0 <= k < digits -> is_power_of_two digits (2 ^ k) = true.
Proof.
  intros Hk. pose proof (pow2_lt_mono k digits Hk) as Hlt.
  unfold is_power_of_two, size_t.to_bool.
  rewrite sub_one_no_wrap by assumption.
  rewrite land_pow2_pred by lia.
  rewrite Z.mod_same by lia.
  apply andb_true_intro. split.
  - apply negb_true_iff, Z.eqb_neq. lia.
  - reflexivity.
Qed.

(** The top bit of [V] survives in [V - 1] unless [V] is exactly [2^log2 V]. *)
Lemma land_pred_zero_pow2 (V : Z) :
  0 < V -> Z.land V (V - 1) = 0 -> V = 2 ^ Z.log2 V.
Proof.
  intros Hpos Hland.
  pose proof (Z.log2_nonneg V) as Hk.
  destruct (Z.log2_spec V Hpos) as [Hlo Hhi].
  destruct (Z.eq_dec V (2 ^ Z.log2 V)) as [|Hne]; [assumption|exfalso].
  assert (Hlog : Z.log2 (V - 1) = Z.log2 V).
  { apply Z.log2_unique; [assumption | lia]. }
  assert (Hbit : Z.testbit (Z.land V (V - 1)) (Z.log2 V) = true).
  { rewrite Z.land_spec, Z.bit_log2 by assumption.
    rewrite <- Hlog. rewrite Z.bit_log2 by lia. reflexivity. }
  rewrite Hland, Z.bits_0 in Hbit. discriminate.
Qed.

Lemma is_power_of_two_inv (digits V : Z) :
  0 <= V < 2 ^ digits ->
  is_power_of_two digits V = true ->
  exists k, 0 <= k < digits /\ V = 2 ^ k.
Proof.
  intros HV Hp. unfold is_power_of_two, size_t.to_bool in Hp.
  apply andb_prop in Hp. destruct Hp as [Hnz Hz].
  apply negb_true_iff, Z.eqb_neq in Hnz. apply Z.eqb_eq in Hz.
  rewrite sub_one_no_wrap in Hz by lia.
  assert (Hpos : 0 < V) by lia.
  pose proof (land_pred_zero_pow2 V Hpos Hz) as HVk.
  exists (Z.log2 V). split; [split|assumption].
  - apply Z.log2_nonneg.
  - apply Z.log2_lt_pow2; lia.
Qed.

Lemma power_of_two_exponent (digits D : Z) :
  size_t.representable digits D -> power_of_two D ->
  exists k, 0 <= k < digits /\ D = 2 ^ k.
Proof.
  intros [_ Hhi] (k & Hk & ->). exists k. split; [split|]; trivial.
  unfold size_t.max_plus_one in Hhi.
  apply (Z.pow_lt_mono_r_iff 2); try lia.
  destruct (Z.le_gt_cases 0 digits) as [|Hneg]; [assumption|].
  rewrite (Z.pow_neg_r 2 digits) in Hhi by assumption.
  pose proof (Z.pow_nonneg 2 k). lia.
Qed.

Lemma fast_mod_pow2 (digits k v : Z) :
  0 <= k < digits -> fast_mod digits (2 ^ k) v = Some (v mod 2 ^ k).
Proof.
  intros Hk. unfold fast_mod, is_power_of_two_v.
  rewrite is_power_of_two_pow2 by assumption.
  rewrite sub_one_no_wrap by (apply pow2_lt_mono; assumption).
  rewrite land_pow2_pred by lia. reflexivity.
Qed.

Lemma is_power_of_two_zero (digits : Z) : is_power_of_two_v digits 0 = false.
Proof. reflexivity. Qed.

Lemma fast_mod_defined (digits V v : Z) :
  fast_mod digits V v <> None -> is_power_of_two_v digits V = true.
Proof.
  unfold fast_mod. destruct (is_power_of_two_v digits V); congruence.
Qed.

(** C1: for every divisor [D] that is a power of two and every
    [std::size_t] value [v], [fast_mod<D>(v)] is [v % D], a value of
    [[0, D)]; in particular [fast_mod<16>] maps 37 to 5, 16 to 0 and
    0 to 0. *)
Theorem fast_mod_is_modulus :
  (forall digits D v,
      size_t.representable digits D -> power_of_two D ->
      size_t.representable digits v ->
      fast_mod digits D v = Some (v mod D) /\ 0 <= v mod D < D)
  /\ fast_mod 64 16 37 = Some 5
  /\ fast_mod 64 16 16 = Some 0
  /\ fast_mod 64 16 0 = Some 0.
Proof.
  split; [|repeat split; reflexivity].
  intros digits D v HD Hpow _.
  destruct (power_of_two_exponent digits D HD Hpow) as (k & Hk & ->).
  split.
  - now apply fast_mod_pow2.
  - apply Z.mod_pos_bound. apply (pow2_lt_mono k digits Hk).
Qed.

Lemma fast_mod_is_modulus_witness :
  fast_mod 32 1024 5000 = Some (5000 mod 1024) /\ 0 <= 5000 mod 1024 < 1024.
Proof.
  apply (proj1 fast_mod_is_modulus 32 1024 5000).
  - unfold size_t.representable, size_t.max_plus_one. lia.
  - exists 10. split; [lia | reflexivity].
  - unfold size_t.representable, size_t.max_plus_one. lia.
Defined.

(** C7: on [std::size_t] values the test [V && ((V & (V - 1)) == 0)] holds
    exactly for the powers of two; zero is rejected, and [fast_mod] reaches
    its mask only for a divisor that is a power of two. *)
Theorem is_power_of_two_exact :
  forall digits V,
    size_t.representable digits V ->
    (is_power_of_two_v digits V = true <-> power_of_two V)
    /\ is_power_of_two_v digits 0 = false
    /\ (forall v, fast_mod digits V v <> None -> power_of_two V).
Proof.
  intros digits V HV.
  assert (Hiff : is_power_of_two_v digits V = true <-> power_of_two V).
  { split.
    - intros Hp. destruct (is_power_of_two_inv digits V HV Hp) as (k & Hk & ->).
      exists k. split; [lia | reflexivity].
    - intros Hp.
      destruct (power_of_two_exponent digits V HV Hp) as (k & Hk & ->).
      now apply is_power_of_two_pow2. }
  split; [exact Hiff | split].
  - apply is_power_of_two_zero.
  - intros v Hv. apply Hiff. exact (fast_mod_defined digits V v Hv).
Qed.

Lemma is_power_of_two_exact_witness :
  (is_power_of_two_v 64 4096 = true <-> power_of_two 4096)
  /\ is_power_of_two_v 64 0 = false
  /\ (forall v, fast_mod 64 4096 v <> None -> power_of_two 4096).
Proof.
  apply (is_power_of_two_exact 64 4096).
  unfold size_t.representable, size_t.max_plus_one. lia.
Defined.

Example is_power_of_two_samples :
  map (is_power_of_two_v 64) [0; 1; 2; 3; 6; 16; 24; 2 ^ 63; 2 ^ 64 - 1]
  = [false; true; true; false; false; true; false; true; false].
Proof. reflexivity. Qed.

(** ** The propagation rules *)

Lemma assign_same {A : Type} (m : objects A) (r : ref) (v : A) :
  assign m r v r = v.
Proof. unfold assign. now rewrite Nat.eqb_refl. Qed.

Lemma assign_other {A : Type} (m : objects A) (r r' : ref) (v : A) :
  r' <> r -> assign m r v r' = m r'.
Proof.
  intros Hne. unfold assign.
  destruct (Nat.eqb_spec r' r); [contradiction | reflexivity].
Qed.

Section PropagationFacts.

Context {A : Type} `{Allocator A} `{allocator_traits.t A}.

Lemma copy_assign_runs (lhs rhs : ref) (m : objects A) :
  copy_assign lhs rhs m = Returns (tt, assign m lhs (m rhs)).
Proof. reflexivity. Qed.

Lemma move_assign_runs (lhs rhs : ref) (m : objects A) :
  move_assign lhs rhs m
  = Returns (tt, assign (assign m lhs (m rhs)) rhs (moved_from (m rhs))).
Proof. reflexivity. Qed.

Lemma swap_runs (a b : ref) (m : objects A) :
  exists m', swap a b m = Returns (tt, m')
             /\ m' a = m b /\ m' b = m a
             /\ (forall r, r <> a -> r <> b -> m' r = m r).
Proof.
  eexists. split; [reflexivity|]. cbn. repeat split; intros; ref_cases.
Qed.

Lemma copy_assignment_runs (lhs rhs : ref) (m : objects A) :
  propagate_on_container_copy_assignment lhs rhs m
  = Returns (tt, if allocator_traits.propagate_on_container_copy_assignment A
                 then assign m lhs (m rhs) else m).
Proof.
  unfold propagate_on_container_copy_assignment.
  destruct (allocator_traits.propagate_on_container_copy_assignment A);
    reflexivity.
Qed.

Lemma move_assignment_runs (lhs rhs : ref) (m : objects A) :
  propagate_on_container_move_assignment lhs rhs m
  = Returns (tt, if allocator_traits.propagate_on_container_move_assignment A
                 then assign (assign m lhs (m rhs)) rhs (moved_from (m rhs))
                 else m).
Proof.
  unfold propagate_on_container_move_assignment.
  destruct (allocator_traits.propagate_on_container_move_assignment A);
    reflexivity.
Qed.

Lemma swap_enabled_runs (lhs rhs : ref) (m : objects A) :
  allocator_traits.propagate_on_container_swap A = true ->
  propagate_on_container_swap lhs rhs m = swap lhs rhs m.
Proof.
  intros Hpocs. unfold propagate_on_container_swap.
  rewrite Hpocs. reflexivity.
Qed.

Lemma swap_disabled_runs (lhs rhs : ref) (m : objects A) :
  allocator_traits.propagate_on_container_swap A = false ->
  propagate_on_container_swap lhs rhs m
  = if alloc_eqb (m lhs) (m rhs)
    then Returns (tt, m)
    else AssertionFailure "Cannot swap the containers".
Proof.
  intros Hpocs. unfold propagate_on_container_swap.
  rewrite Hpocs. cbn.
  destruct (alloc_eqb (m lhs) (m rhs)); reflexivity.
Qed.

End PropagationFacts.

Section PropagationClaims.

Context {A : Type} `{Allocator A} `{allocator_traits.t A}.

(** C2: with [propagate_on_container_swap] false, a call on allocators that
    compare equal returns and leaves every allocator as it was, and a call on
    allocators that compare unequal fails the assertion; over all allocator
    types the assertion fails exactly when the trait is false and the
    allocators are unequal. *)
Theorem swap_disabled_requires_equal (lhs rhs : ref) (m : objects A) :
  (allocator_traits.propagate_on_container_swap A = false ->
   alloc_eqb (m lhs) (m rhs) = true ->
   propagate_on_container_swap lhs rhs m = Returns (tt, m))
  /\ (allocator_traits.propagate_on_container_swap A = false ->
      alloc_eqb (m lhs) (m rhs) = false ->
      propagate_on_container_swap lhs rhs m
      = AssertionFailure "Cannot swap the containers")
  /\ ((exists msg, propagate_on_container_swap lhs rhs m = AssertionFailure msg)
      <-> allocator_traits.propagate_on_container_swap A = false
          /\ alloc_eqb (m lhs) (m rhs) = false).
Proof.
  split; [|split].
  - intros Hpocs Heq. rewrite swap_disabled_runs, Heq by assumption.
    reflexivity.
  - intros Hpocs Hne. rewrite swap_disabled_runs, Hne by assumption.
    reflexivity.
  - destruct (allocator_traits.propagate_on_container_swap A) eqn:Hpocs.
    + rewrite swap_enabled_runs by assumption.
      destruct (swap_runs lhs rhs m) as (m' & -> & _).
      split; [intros [msg Hmsg]; discriminate | intros [Hf _]; discriminate].
    + rewrite swap_disabled_runs by assumption.
      destruct (alloc_eqb (m lhs) (m rhs)).
      * split; [intros [msg Hmsg]; discriminate | intros [_ Hf]; discriminate].
      * split; [intros _; split; reflexivity | intros _; eexists; reflexivity].
Qed.

(** C3: a call of [propagate_on_container_copy_assignment] returns; when the
    trait is true [lhs] then holds the value of [rhs] and compares equal to
    it, every other object being as before; when the trait is false nothing
    has changed. *)
Theorem copy_assignment_follows_trait (lhs rhs : ref) (m : objects A) :
  (allocator_traits.propagate_on_container_copy_assignment A = true ->
   exists m',
     propagate_on_container_copy_assignment lhs rhs m = Returns (tt, m')
     /\ m' lhs = m rhs
     /\ alloc_eqb (m' lhs) (m' rhs) = true
     /\ (forall r, r <> lhs -> m' r = m r))
  /\ (allocator_traits.propagate_on_container_copy_assignment A = false ->
      propagate_on_container_copy_assignment lhs rhs m = Returns (tt, m)).
Proof.
  rewrite copy_assignment_runs. split; intros ->; [|reflexivity].
  eexists. split; [reflexivity|].
  assert (Hl : assign m lhs (m rhs) lhs = m rhs) by apply assign_same.
  assert (Hr : assign m lhs (m rhs) rhs = m rhs) by ref_cases.
  rewrite Hl, Hr. repeat split.
  - apply alloc_eqb_refl.
  - intros r Hne. now apply assign_other.
Qed.

(** C4: a call of [propagate_on_container_move_assignment] returns.  When
    the trait is true and [rhs] is, as the source documents it, another
    allocator object than [lhs] (the two may hold any values, equal ones
    included), [lhs] then holds the value [rhs] had before the call, [rhs]
    holds what the move left in it, and no other object has changed.  When
    the trait is false nothing has changed: [lhs] is as it was and [rhs] is
    not moved from. *)
Theorem move_assignment_follows_trait (lhs rhs : ref) (m : objects A) :
  (allocator_traits.propagate_on_container_move_assignment A = true ->
   lhs <> rhs ->
   exists m',
     propagate_on_container_move_assignment lhs rhs m = Returns (tt, m')
     /\ m' lhs = m rhs
     /\ m' rhs = moved_from (m rhs)
     /\ (forall r, r <> lhs -> r <> rhs -> m' r = m r))
  /\ (allocator_traits.propagate_on_container_move_assignment A = false ->
      propagate_on_container_move_assignment lhs rhs m = Returns (tt, m)).
Proof.
  rewrite move_assignment_runs. split; [intros -> Hne | intros ->; reflexivity].
  eexists. split; [reflexivity|]. repeat split; intros; ref_cases.
Qed.

(** C5: with [propagate_on_container_swap] true one call exchanges the
    values of the two allocators and touches no other object, and a second
    call gives every object its original value back. *)
Theorem swap_enabled_is_involution (lhs rhs : ref) (m : objects A) :
  allocator_traits.propagate_on_container_swap A = true ->
  (exists m',
      propagate_on_container_swap lhs rhs m = Returns (tt, m')
      /\ m' lhs = m rhs /\ m' rhs = m lhs
      /\ (forall r, r <> lhs -> r <> rhs -> m' r = m r))
  /\ (exists m'',
         (propagate_on_container_swap lhs rhs ;;
          propagate_on_container_swap lhs rhs)%eff m = Returns (tt, m'')
         /\ forall r, m'' r = m r).
Proof.
  intros Hpocs.
  destruct (swap_runs lhs rhs m) as (m' & Hrun & Hl & Hr & Hframe).
  split.
  - exists m'. rewrite swap_enabled_runs by assumption. auto.
  - destruct (swap_runs lhs rhs m') as (m'' & Hrun' & Hl' & Hr' & Hframe').
    exists m''. split.
    + unfold bind. rewrite swap_enabled_runs, Hrun by assumption.
      rewrite swap_enabled_runs by assumption. exact Hrun'.
    + intros r.
      destruct (Nat.eq_dec r lhs) as [->|Hnl]; [congruence|].
      destruct (Nat.eq_dec r rhs) as [->|Hnr]; [congruence|].
      rewrite Hframe', Hframe by assumption. reflexivity.
Qed.

(** C9: with [propagate_on_container_swap] true the asserted condition
    [pocs || lhs == rhs] holds whatever the allocators are, so the call never
    ends in an assertion failure: it returns. *)
Theorem swap_enabled_never_asserts (lhs rhs : ref) (m : objects A) :
  allocator_traits.propagate_on_container_swap A = true ->
  allocator_traits.propagate_on_container_swap A
    || alloc_eqb (m lhs) (m rhs) = true
  /\ (forall msg, propagate_on_container_swap lhs rhs m <> AssertionFailure msg)
  /\ (exists m', propagate_on_container_swap lhs rhs m = Returns (tt, m')).
Proof.
  intros Hpocs. rewrite swap_enabled_runs, Hpocs by assumption.
  destruct (swap_runs lhs rhs m) as (m' & -> & _).
  repeat split; [discriminate | now exists m'].
Qed.

(** C10: whatever the trait says, a call of
    [propagate_on_container_copy_assignment] returns with [rhs] holding the
    value it held before; the only object that can differ is [lhs]. *)
Theorem copy_assignment_preserves_source (lhs rhs : ref) (m : objects A) :
  exists m',
    propagate_on_container_copy_assignment lhs rhs m = Returns (tt, m')
    /\ m' rhs = m rhs
    /\ (forall r, r <> lhs -> m' r = m r).
Proof.
  rewrite copy_assignment_runs. eexists. split; [reflexivity|].
  destruct (allocator_traits.propagate_on_container_copy_assignment A);
    split; intros; ref_cases.
Qed.

End PropagationClaims.

(** Move assignment of an allocator object to itself leaves what the move
    leaves in its source. *)
Lemma move_assignment_same_object {A : Type} `{Allocator A}
      `{allocator_traits.t A} (a : ref) (m : objects A) :
  allocator_traits.propagate_on_container_move_assignment A = true ->
  exists m',
    propagate_on_container_move_assignment a a m = Returns (tt, m')
    /\ m' a = moved_from (m a).
Proof.
  intros Hpocma. rewrite move_assignment_runs, Hpocma.
  eexists. split; [reflexivity | apply assign_same].
Qed.

Lemma swap_disabled_requires_equal_witness :
  @propagate_on_container_swap arena _ pinned 0%nat 1%nat two_equal_allocators
  = Returns (tt, two_equal_allocators)
  /\ @propagate_on_container_swap arena _ pinned 0%nat 1%nat two_allocators
     = AssertionFailure "Cannot swap the containers".
Proof.
  split.
  - apply (proj1 (@swap_disabled_requires_equal
                    arena _ pinned 0%nat 1%nat two_equal_allocators));
      reflexivity.
  - apply (proj1 (proj2 (@swap_disabled_requires_equal
                           arena _ pinned 0%nat 1%nat two_allocators)));
      reflexivity.
Defined.

Lemma copy_assignment_follows_trait_witness :
  (exists m',
      @propagate_on_container_copy_assignment
        arena propagating 0%nat 1%nat two_allocators = Returns (tt, m')
      /\ m' 0%nat = two_allocators 1%nat
      /\ alloc_eqb (m' 0%nat) (m' 1%nat) = true
      /\ (forall r, r <> 0%nat -> m' r = two_allocators r))
  /\ @propagate_on_container_copy_assignment
       arena pinned 0%nat 1%nat two_allocators = Returns (tt, two_allocators).
Proof.
  split.
  - apply (proj1 (@copy_assignment_follows_trait
                    arena _ propagating 0%nat 1%nat two_allocators)).
    reflexivity.
  - apply (proj2 (@copy_assignment_follows_trait
                    arena _ pinned 0%nat 1%nat two_allocators)).
    reflexivity.
Defined.

Lemma move_assignment_follows_trait_witness :
  (exists m',
      @propagate_on_container_move_assignment
        arena _ propagating 0%nat 1%nat two_allocators = Returns (tt, m')
      /\ m' 0%nat = two_allocators 1%nat
      /\ m' 1%nat = moved_from (two_allocators 1%nat)
      /\ (forall r, r <> 0%nat -> r <> 1%nat -> m' r = two_allocators r))
  /\ @propagate_on_container_move_assignment
       arena _ pinned 0%nat 1%nat two_allocators = Returns (tt, two_allocators).
Proof.
  split.
  - apply (proj1 (@move_assignment_follows_trait
                    arena _ propagating 0%nat 1%nat two_allocators)).
    + reflexivity.
    + discriminate.
  - apply (proj2 (@move_assignment_follows_trait
                    arena _ pinned 0%nat 1%nat two_allocators)).
    reflexivity.
Defined.

Lemma swap_enabled_is_involution_witness :
  (exists m',
      @propagate_on_container_swap
        arena _ propagating 0%nat 1%nat two_allocators = Returns (tt, m')
      /\ m' 0%nat = two_allocators 1%nat /\ m' 1%nat = two_allocators 0%nat
      /\ (forall r, r <> 0%nat -> r <> 1%nat -> m' r = two_allocators r))
  /\ (exists m'',
         (@propagate_on_container_swap arena _ propagating 0%nat 1%nat ;;
          @propagate_on_container_swap arena _ propagating 0%nat 1%nat)%eff
           two_allocators = Returns (tt, m'')
         /\ forall r, m'' r = two_allocators r).
Proof.
  apply (@swap_enabled_is_involution
           arena _ propagating 0%nat 1%nat two_allocators).
  reflexivity.
Defined.

Lemma swap_enabled_never_asserts_witness :
  alloc_eqb (two_allocators 0%nat) (two_allocators 1%nat) = false
  /\ forall msg,
      @propagate_on_container_swap
        arena _ propagating 0%nat 1%nat two_allocators
      <> AssertionFailure msg.
Proof.
  split; [reflexivity|].
  apply (@swap_enabled_never_asserts
           arena _ propagating 0%nat 1%nat two_allocators).
  reflexivity.
Defined.

Example copy_assignment_on_arenas :
  match @propagate_on_container_copy_assignment
          arena propagating 0%nat 1%nat two_allocators with
  | Returns (_, m') => map m' [0; 1; 2]%nat = [9; 9; 0]%nat
  | AssertionFailure _ => False
  end.
Proof. reflexivity. Qed.

Example move_assignment_on_arenas :
  match @propagate_on_container_move_assignment
          arena _ propagating 0%nat 1%nat two_allocators with
  | Returns (_, m') => map m' [0; 1; 2]%nat = [9; 0; 0]%nat
  | AssertionFailure _ => False
  end.
Proof. reflexivity. Qed.

Example swap_on_arenas :
  match @propagate_on_container_swap
          arena _ propagating 0%nat 1%nat two_allocators with
  | Returns (_, m') => map m' [0; 1; 2]%nat = [9; 7; 0]%nat
  | AssertionFailure _ => False
  end.
Proof. reflexivity. Qed.

(** ** [to_address] *)

Section ToAddressFacts.

Context {Ptr : Type}.
Variable is_pointer_v : Ptr -> bool.
Variable arrow : Ptr -> Ptr.

Local Abbreviation to_address := (to_address is_pointer_v arrow).
Local Abbreviation unwraps := (unwraps is_pointer_v arrow).
Local Abbreviation arrow_step := (arrow_step is_pointer_v arrow).

Lemma to_address_raw (depth : nat) (p : Ptr) :
  is_pointer_v p = true -> to_address depth p = Some p.
Proof.
  intros Hp. destruct depth; simpl; now rewrite Hp.
Qed.

Lemma to_address_fancy (depth : nat) (w : Ptr) :
  is_pointer_v w = false -> to_address (S depth) w = to_address depth (arrow w).
Proof.
  intros Hw. simpl. now rewrite Hw.
Qed.

Lemma to_address_out_of_depth (w : Ptr) :
  is_pointer_v w = false -> to_address O w = None.
Proof.
  intros Hw. simpl. now rewrite Hw.
Qed.

Lemma to_address_unwraps (n : nat) (w p : Ptr) :
  unwraps n w p ->
  forall depth, (n <= depth)%nat -> to_address depth w = Some p.
Proof.
  induction 1 as [p Hp | n w p Hw Hchain IH]; intros depth Hle.
  - now apply to_address_raw.
  - destruct depth as [|depth]; [lia|].
    rewrite to_address_fancy by assumption. apply IH. lia.
Qed.

Lemma to_address_too_shallow (n : nat) (w p : Ptr) :
  unwraps n w p ->
  forall depth, (depth < n)%nat -> to_address depth w = None.
Proof.
  induction 1 as [p Hp | n w p Hw Hchain IH]; intros depth Hlt.
  - lia.
  - destruct depth as [|depth].
    + now apply to_address_out_of_depth.
    + rewrite to_address_fancy by assumption. apply IH. lia.
Qed.

Lemma to_address_inv (depth : nat) :
  forall w p, to_address depth w = Some p ->
              exists n, (n <= depth)%nat /\ unwraps n w p.
Proof.
  induction depth as [|depth IH]; intros w p Hres;
    destruct (is_pointer_v w) eqn:Hw.
  - rewrite to_address_raw in Hres by assumption. injection Hres as <-.
    exists O. split; [lia | now constructor].
  - rewrite to_address_out_of_depth in Hres by assumption. discriminate.
  - rewrite to_address_raw in Hres by assumption. injection Hres as <-.
    exists O. split; [lia | now constructor].
  - rewrite to_address_fancy in Hres by assumption.
    destruct (IH _ _ Hres) as (n & Hle & Hchain).
    exists (S n). split; [lia | now constructor].
Qed.

Lemma unwraps_ends_raw (n : nat) (w p : Ptr) :
  unwraps n w p -> is_pointer_v p = true.
Proof. induction 1; assumption. Qed.

Lemma unwraps_step (n : nat) (w p : Ptr) :
  unwraps n w p -> is_pointer_v w = false ->
  exists n', n = S n' /\ unwraps n' (arrow w) p.
Proof.
  intros Hchain Hw. destruct Hchain as [p Hp | n w p _ Hchain].
  - congruence.
  - now exists n.
Qed.

Lemma unwraps_functional (n : nat) (w p : Ptr) :
  unwraps n w p -> forall n' p', unwraps n' w p' -> n = n' /\ p = p'.
Proof.
  induction 1 as [p Hp | n w p Hw Hchain IH]; intros n' p' Hother;
    inversion Hother; subst; try congruence.
  - split; reflexivity.
  - destruct (IH _ _ H0) as [-> ->]. split; reflexivity.
Qed.

Lemma unwraps_Acc (n : nat) (w p : Ptr) :
  unwraps n w p -> Acc arrow_step w.
Proof.
  induction 1 as [p Hp | n w p Hw Hchain IH]; constructor;
    intros next [Hnext ->]; [congruence | exact IH].
Qed.

End ToAddressFacts.

Section ToAddressClaims.

Context {Ptr : Type}.
Variable is_pointer_v : Ptr -> bool.
Variable arrow : Ptr -> Ptr.

Local Abbreviation to_address := (to_address is_pointer_v arrow).
Local Abbreviation unwraps := (unwraps is_pointer_v arrow).
Local Abbreviation arrow_step := (arrow_step is_pointer_v arrow).

(** C6: [to_address] returns a raw pointer as it is, and returns [p] for a
    fancy pointer that wraps the raw pointer [p] in finitely many
    [operator->] steps; two wrappers of one [p], of whatever depths, resolve
    to the same address, and resolving the result again changes nothing. *)
Theorem to_address_resolves :
  (forall depth p, is_pointer_v p = true -> to_address depth p = Some p)
  /\ (forall n w p depth,
         unwraps n w p -> (n <= depth)%nat -> to_address depth w = Some p)
  /\ (forall n n' w w' p depth depth',
         unwraps n w p -> unwraps n' w' p ->
         (n <= depth)%nat -> (n' <= depth')%nat ->
         to_address depth w = to_address depth' w')
  /\ (forall depth depth' w p,
         to_address depth w = Some p -> to_address depth' p = Some p).
Proof.
  split; [|split; [|split]].
  - intros depth p Hp. now apply to_address_raw.
  - intros n w p depth Hchain Hle.
    exact (to_address_unwraps _ _ n w p Hchain depth Hle).
  - intros n n' w w' p depth depth' Hw Hw' Hle Hle'.
    rewrite (to_address_unwraps _ _ n w p Hw depth Hle).
    rewrite (to_address_unwraps _ _ n' w' p Hw' depth' Hle').
    reflexivity.
  - intros depth depth' w p Hres.
    destruct (to_address_inv _ _ depth w p Hres) as (n & _ & Hchain).
    apply to_address_raw. exact (unwraps_ends_raw _ _ n w p Hchain).
Qed.

(** C8: for an input whose chain of [operator->] steps reaches a raw pointer
    [p] after [n] steps, the recursion of [to_address] ends with [p] once
    [n] nested calls are allowed and with any larger allowance, and not with
    fewer; each step from a fancy pointer leaves a chain one shorter, and
    the step relation is well founded below the input. *)
Theorem to_address_terminates (n : nat) (w p : Ptr) :
  unwraps n w p ->
  to_address n w = Some p
  /\ (forall depth, (n <= depth)%nat -> to_address depth w = Some p)
  /\ (forall depth, (depth < n)%nat -> to_address depth w = None)
  /\ (is_pointer_v w = false ->
      exists n', n = S n' /\ unwraps n' (arrow w) p)
  /\ Acc arrow_step w.
Proof.
  intros Hchain. split; [|split; [|split; [|split]]].
  - apply (to_address_unwraps _ _ n w p Hchain). lia.
  - exact (to_address_unwraps _ _ n w p Hchain).
  - exact (to_address_too_shallow _ _ n w p Hchain).
  - now apply unwraps_step.
  - exact (unwraps_Acc _ _ n w p Hchain).
Qed.

End ToAddressClaims.

(** A type whose [operator->] returns a value of the same type never
    reaches a raw pointer: no depth is enough. *)
Lemma self_pointer_rejected (depth : nat) :
  to_address handle_is_pointer handle_arrow depth self_pointer = None.
Proof. induction depth as [|depth IH]; [reflexivity | exact IH]. Qed.

Lemma self_pointer_not_Acc :
  ~ Acc (arrow_step handle_is_pointer handle_arrow) self_pointer.
Proof.
  intros Hacc. remember self_pointer as h eqn:Hh.
  induction Hacc as [h _ IH]. subst h.
  apply (IH self_pointer); [split|]; reflexivity.
Qed.

Lemma doubly_wrapped :
  unwraps handle_is_pointer handle_arrow 2
          (fancy_pointer (fancy_pointer (raw_pointer 4096)))
          (raw_pointer 4096).
Proof. repeat constructor. Qed.

Lemma to_address_resolves_witness :
  to_address handle_is_pointer handle_arrow 5
             (fancy_pointer (fancy_pointer (raw_pointer 4096)))
  = Some (raw_pointer 4096)
  /\ to_address handle_is_pointer handle_arrow 5
                (fancy_pointer (fancy_pointer (raw_pointer 4096)))
     = to_address handle_is_pointer handle_arrow 1
                  (fancy_pointer (raw_pointer 4096)).
Proof.
  split.
  - apply (proj1 (proj2 (to_address_resolves handle_is_pointer handle_arrow))
             2%nat).
    + exact doubly_wrapped.
    + lia.
  - apply (proj1 (proj2 (proj2
             (to_address_resolves handle_is_pointer handle_arrow)))
             2%nat 1%nat _ _ (raw_pointer 4096)).
    + exact doubly_wrapped.
    + repeat constructor.
    + lia.
    + lia.
Defined.

Lemma to_address_terminates_witness :
  to_address handle_is_pointer handle_arrow 2
             (fancy_pointer (fancy_pointer (raw_pointer 4096)))
  = Some (raw_pointer 4096)
  /\ to_address handle_is_pointer handle_arrow 1
                (fancy_pointer (fancy_pointer (raw_pointer 4096)))
     = None.
Proof.
  destruct (to_address_terminates handle_is_pointer handle_arrow 2
              (fancy_pointer (fancy_pointer (raw_pointer 4096)))
              (raw_pointer 4096) doubly_wrapped)
    as (Hexact & _ & Hshort & _).
  split; [exact Hexact | apply Hshort; lia].
Defined.

(** * Part III: further properties of the code *)

(** ** [fast_mod] in index arithmetic *)

Lemma pow2_divide (k1 k2 : Z) : 0 <= k1 <= k2 -> (2 ^ k1 | 2 ^ k2).
Proof.
  intros Hk. exists (2 ^ (k2 - k1)).
  rewrite <- Z.pow_add_r by lia. f_equal. lia.
Qed.

Lemma fast_mod_some_inv (digits D v r : Z) :
  size_t.representable digits D ->
  fast_mod digits D v = Some r ->
  exists k, 0 <= k < digits /\ D = 2 ^ k /\ r = v mod 2 ^ k.
Proof.
  intros HD Hres.
  assert (Hdef : fast_mod digits D v <> None) by congruence.
  apply fast_mod_defined in Hdef.
  destruct (is_power_of_two_inv digits D HD Hdef) as (k & Hk & ->).
  exists k. rewrite fast_mod_pow2 in Hres by assumption.
  injection Hres as <-. auto.
Qed.

(** X1: the index in a table of [D1] buckets can be taken from the index in a
    larger table of [D2] buckets: reducing by [D2] first does not change
    the result of reducing by [D1]. *)
Theorem fast_mod_nested (digits D1 D2 v r : Z) :
  size_t.representable digits D1 ->
  size_t.representable digits D2 ->
  power_of_two D1 ->
  D1 <= D2 ->
  fast_mod digits D2 v = Some r ->
  fast_mod digits D1 r = fast_mod digits D1 v.
Proof.
  intros H1 H2 Hp1 Hle Hres.
  destruct (power_of_two_exponent digits D1 H1 Hp1) as (k1 & Hk1 & ->).
  destruct (fast_mod_some_inv digits D2 v r H2 Hres) as (k2 & Hk2 & -> & ->).
  rewrite !fast_mod_pow2 by assumption. f_equal.
  apply Z.mod_mod_divide, pow2_divide. split; [lia|].
  apply (Z.pow_le_mono_r_iff 2); lia.
Qed.

Lemma fast_mod_nested_witness :
  fast_mod 64 16 (1000 mod 256) = fast_mod 64 16 1000.
Proof.
  apply (fast_mod_nested 64 16 256 1000 (1000 mod 256)).
  - unfold size_t.representable, size_t.max_plus_one. lia.
  - unfold size_t.representable, size_t.max_plus_one. lia.
  - exists 4. split; [lia | reflexivity].
  - lia.
  - reflexivity.
Defined.

(** X2: overflow does not disturb the result: for an integer [x] of any size,
    [fast_mod] of the [std::size_t] value [x] wraps to is [x mod D]. *)
Theorem fast_mod_of_wrapped (digits D x : Z) :
  size_t.representable digits D ->
  power_of_two D ->
  fast_mod digits D (size_t.wrap digits x) = Some (x mod D).
Proof.
  intros HD Hp.
  destruct (power_of_two_exponent digits D HD Hp) as (k & Hk & ->).
  rewrite fast_mod_pow2 by assumption. f_equal.
  unfold size_t.wrap, size_t.max_plus_one.
  apply Z.mod_mod_divide, pow2_divide. lia.
Qed.

Lemma fast_mod_of_wrapped_witness :
  fast_mod 8 16 (size_t.wrap 8 (200 + 100)) = Some ((200 + 100) mod 16).
Proof.
  apply (fast_mod_of_wrapped 8 16 (200 + 100)).
  - unfold size_t.representable, size_t.max_plus_one. lia.
  - exists 4. split; [lia | reflexivity].
Defined.

(** X3: the result never exceeds the argument, and it is the argument itself
    exactly when the argument is below the divisor. *)
Theorem fast_mod_below_divisor (digits D v r : Z) :
  size_t.representable digits D ->
  size_t.representable digits v ->
  fast_mod digits D v = Some r ->
  r <= v /\ (r = v <-> v < D).
Proof.
  intros HD [Hv _] Hres.
  destruct (fast_mod_some_inv digits D v r HD Hres) as (k & Hk & -> & ->).
  pose proof (pow2_lt_mono k digits Hk) as [Hpos _].
  pose proof (Z.mod_pos_bound v (2 ^ k) Hpos) as Hbound.
  split; [apply Z.mod_le; lia|]. split.
  - intros Heq. lia.
  - intros Hlt. apply Z.mod_small. lia.
Qed.

Lemma fast_mod_below_divisor_witness :
  5 <= 37 /\ (5 = 37 <-> 37 < 16).
Proof.
  apply (fast_mod_below_divisor 64 16 37 5).
  - unfold size_t.representable, size_t.max_plus_one. lia.
  - unfold size_t.representable, size_t.max_plus_one. lia.
  - reflexivity.
Defined.

(** X4: the second operand of [Value && ...] alone does not tell zero from a
    power of two: [(Value & (Value - 1)) == 0] holds exactly for zero and
    the powers of two, zero being excluded only by the first operand. *)
Theorem mask_test_accepts_zero (digits V : Z) :
  size_t.representable digits V ->
  (Z.land V (size_t.sub digits V 1) =? 0) = true <-> V = 0 \/ power_of_two V.
Proof.
  intros HV. split.
  - intros Hmask. destruct (Z.eq_dec V 0) as [|Hnz]; [now left | right].
    assert (Hp : is_power_of_two digits V = true).
    { unfold is_power_of_two, size_t.to_bool. rewrite Hmask.
      apply andb_true_intro. split; [|reflexivity].
      now apply negb_true_iff, Z.eqb_neq. }
    destruct (is_power_of_two_inv digits V HV Hp) as (k & Hk & ->).
    exists k. split; [lia | reflexivity].
  - intros [-> | Hp].
    + rewrite Z.land_0_l. reflexivity.
    + destruct (power_of_two_exponent digits V HV Hp) as (k & Hk & ->).
      pose proof (is_power_of_two_pow2 digits k Hk) as Htest.
      unfold is_power_of_two in Htest.
      apply andb_prop in Htest. exact (proj2 Htest).
Qed.

Lemma mask_test_accepts_zero_witness :
  (Z.land 0 (size_t.sub 64 0 1) =? 0) = true <-> 0 = 0 \/ power_of_two 0.
Proof.
  apply (mask_test_accepts_zero 64 0).
  unfold size_t.representable, size_t.max_plus_one. lia.
Defined.

(** ** How the propagation rules behave together *)

Section PropagationExtras.

Context {A : Type} `{Allocator A} `{allocator_traits.t A}.

(** X5: the order of the two arguments of [propagate_on_container_swap] does
    not matter: both orders fail the assertion, with the same message, or
    both return with every object holding the same value. *)
Theorem swap_argument_order (lhs rhs : ref) (m : objects A) :
  match propagate_on_container_swap lhs rhs m,
        propagate_on_container_swap rhs lhs m with
  | Returns (_, m1), Returns (_, m2) => forall r, m1 r = m2 r
  | AssertionFailure msg1, AssertionFailure msg2 => msg1 = msg2
  | _, _ => False
  end.
Proof.
  destruct (allocator_traits.propagate_on_container_swap A) eqn:Hpocs.
  - rewrite !swap_enabled_runs by assumption.
    destruct (swap_runs lhs rhs m) as (m1 & -> & Hl1 & Hr1 & Hf1).
    destruct (swap_runs rhs lhs m) as (m2 & -> & Hr2 & Hl2 & Hf2).
    intros r.
    destruct (Nat.eq_dec r lhs) as [->|Hnl]; [congruence|].
    destruct (Nat.eq_dec r rhs) as [->|Hnr]; [congruence|].
    rewrite Hf1, Hf2 by assumption. reflexivity.
  - rewrite !swap_disabled_runs by assumption.
    rewrite (alloc_eqb_sym (m rhs) (m lhs)).
    destruct (alloc_eqb (m lhs) (m rhs)); reflexivity.
Qed.

(** X6: swapping an allocator object with itself never fails the assertion,
    whatever the trait, and leaves every object with its value. *)
Theorem swap_same_object (a : ref) (m : objects A) :
  exists m',
    propagate_on_container_swap a a m = Returns (tt, m')
    /\ forall r, m' r = m r.
Proof.
  destruct (allocator_traits.propagate_on_container_swap A) eqn:Hpocs.
  - rewrite swap_enabled_runs by assumption.
    destruct (swap_runs a a m) as (m' & -> & Ha & _ & Hframe).
    exists m'. split; [reflexivity|]. intros r.
    destruct (Nat.eq_dec r a) as [->|Hne]; [assumption | now apply Hframe].
  - rewrite swap_disabled_runs, alloc_eqb_refl by assumption.
    exists m. split; reflexivity.
Qed.

(** X7: whenever [propagate_on_container_swap] returns, under either value of
    the trait, each allocator compares equal to what the other one was
    before the call. *)
Theorem swap_returns_exchanged (lhs rhs : ref) (m m' : objects A) :
  propagate_on_container_swap lhs rhs m = Returns (tt, m') ->
  alloc_eqb (m' lhs) (m rhs) = true /\ alloc_eqb (m' rhs) (m lhs) = true.
Proof.
  destruct (allocator_traits.propagate_on_container_swap A) eqn:Hpocs.
  - rewrite swap_enabled_runs by assumption.
    destruct (swap_runs lhs rhs m) as (m1 & -> & Hl & Hr & _).
    intros [= <-]. rewrite Hl, Hr. split; apply alloc_eqb_refl.
  - rewrite swap_disabled_runs by assumption.
    destruct (alloc_eqb (m lhs) (m rhs)) eqn:Heq; [|discriminate].
    intros [= <-]. split; [assumption|].
    rewrite alloc_eqb_sym. assumption.
Qed.

(** X8: after a propagating copy assignment the allocators may be swapped under
    any swap trait: the sequence never fails the assertion, and both
    allocators end with the value the source had. *)
Theorem copy_then_swap_returns (lhs rhs : ref) (m : objects A) :
  allocator_traits.propagate_on_container_copy_assignment A = true ->
  exists m',
    (propagate_on_container_copy_assignment lhs rhs ;;
     propagate_on_container_swap lhs rhs)%eff m = Returns (tt, m')
    /\ m' lhs = m rhs /\ m' rhs = m rhs
    /\ (forall r, r <> lhs -> r <> rhs -> m' r = m r).
Proof.
  intros Hpocca. unfold bind.
  rewrite copy_assignment_runs, Hpocca.
  set (m1 := assign m lhs (m rhs)).
  assert (Hl1 : m1 lhs = m rhs) by apply assign_same.
  assert (Hr1 : m1 rhs = m rhs) by (subst m1; ref_cases).
  assert (Hf1 : forall r, r <> lhs -> m1 r = m r)
    by (intros r Hne; now apply assign_other).
  destruct (allocator_traits.propagate_on_container_swap A) eqn:Hpocs.
  - rewrite swap_enabled_runs by assumption.
    destruct (swap_runs lhs rhs m1) as (m' & -> & Hl & Hr & Hframe).
    exists m'. split; [reflexivity|]. repeat split; try congruence.
    intros r Hnl Hnr. rewrite Hframe by assumption. now apply Hf1.
  - rewrite swap_disabled_runs by assumption.
    rewrite Hl1, Hr1, alloc_eqb_refl.
    exists m1. split; [reflexivity|]. repeat split; try assumption.
    intros r Hnl _. now apply Hf1.
Qed.

(** X9: copy propagation is idempotent: a second call right after the first
    changes no object. *)
Theorem copy_assignment_idempotent (lhs rhs : ref) (m : objects A) :
  exists m1 m2,
    propagate_on_container_copy_assignment lhs rhs m = Returns (tt, m1)
    /\ (propagate_on_container_copy_assignment lhs rhs ;;
        propagate_on_container_copy_assignment lhs rhs)%eff m
       = Returns (tt, m2)
    /\ forall r, m2 r = m1 r.
Proof.
  unfold bind. rewrite copy_assignment_runs.
  destruct (allocator_traits.propagate_on_container_copy_assignment A)
    eqn:Hpocca.
  - do 2 eexists. split; [reflexivity|].
    rewrite copy_assignment_runs, Hpocca. split; [reflexivity|].
    intros r. ref_cases.
  - do 2 eexists. split; [reflexivity|].
    rewrite copy_assignment_runs, Hpocca. split; reflexivity.
Qed.

(** X10: the move and swap rules touch nothing but their two arguments: under
    either value of the traits an object other than [lhs] and [rhs] holds
    its value when the call returns, and the move rule always returns. *)
Theorem move_and_swap_frame (lhs rhs r : ref) (m : objects A) :
  r <> lhs -> r <> rhs ->
  (exists m',
      propagate_on_container_move_assignment lhs rhs m = Returns (tt, m')
      /\ m' r = m r)
  /\ (forall m',
         propagate_on_container_swap lhs rhs m = Returns (tt, m') ->
         m' r = m r).
Proof.
  intros Hnl Hnr. split.
  - rewrite move_assignment_runs. eexists. split; [reflexivity|].
    destruct (allocator_traits.propagate_on_container_move_assignment A);
      ref_cases.
  - intros m'.
    destruct (allocator_traits.propagate_on_container_swap A) eqn:Hpocs.
    + rewrite swap_enabled_runs by assumption.
      destruct (swap_runs lhs rhs m) as (m1 & -> & _ & _ & Hframe).
      intros [= <-]. now apply Hframe.
    + rewrite swap_disabled_runs by assumption.
      destruct (alloc_eqb (m lhs) (m rhs)); [|discriminate].
      now intros [= <-].
Qed.

End PropagationExtras.

Lemma swap_returns_exchanged_witness :
  alloc_eqb (two_equal_allocators 0%nat) (two_equal_allocators 1%nat) = true
  /\ alloc_eqb (two_equal_allocators 1%nat) (two_equal_allocators 0%nat)
     = true.
Proof.
  apply (@swap_returns_exchanged arena _ pinned 0%nat 1%nat
           two_equal_allocators two_equal_allocators).
  reflexivity.
Defined.

(** An arena allocator type that propagates on copy assignment only. *)
Definition copy_only : allocator_traits.t arena := {|
  allocator_traits.propagate_on_container_copy_assignment := true;
  allocator_traits.propagate_on_container_move_assignment := false;
  allocator_traits.propagate_on_container_swap := false
|}.

Lemma copy_then_swap_returns_witness :
  exists m',
    (@propagate_on_container_copy_assignment arena copy_only 0%nat 1%nat ;;
     @propagate_on_container_swap arena _ copy_only 0%nat 1%nat)%eff
      two_allocators = Returns (tt, m')
    /\ m' 0%nat = two_allocators 1%nat /\ m' 1%nat = two_allocators 1%nat
    /\ (forall r, r <> 0%nat -> r <> 1%nat -> m' r = two_allocators r).
Proof.
  apply (@copy_then_swap_returns arena _ copy_only 0%nat 1%nat
           two_allocators).
  reflexivity.
Defined.

Lemma move_and_swap_frame_witness :
  (exists m',
      @propagate_on_container_move_assignment
        arena _ propagating 0%nat 1%nat two_allocators = Returns (tt, m')
      /\ m' 2%nat = two_allocators 2%nat)
  /\ (forall m',
         @propagate_on_container_swap
           arena _ propagating 0%nat 1%nat two_allocators = Returns (tt, m') ->
         m' 2%nat = two_allocators 2%nat).
Proof.
  apply (@move_and_swap_frame arena _ propagating 0%nat 1%nat 2%nat
           two_allocators); discriminate.
Defined.

(** ** What [to_address] returns, and when it returns nothing *)

Section ToAddressExtras.

Context {Ptr : Type}.
Variable is_pointer_v : Ptr -> bool.
Variable arrow : Ptr -> Ptr.

Local Abbreviation to_address := (to_address is_pointer_v arrow).
Local Abbreviation unwraps := (unwraps is_pointer_v arrow).

Lemma unwraps_iter (n : nat) :
  forall w p,
    unwraps n w p <->
    p = Nat.iter n arrow w
    /\ is_pointer_v p = true
    /\ (forall i, (i < n)%nat -> is_pointer_v (Nat.iter i arrow w) = false).
Proof.
  induction n as [|n IH]; intros w p; split.
  - intros Hchain. inversion Hchain; subst.
    repeat split; [assumption | intros i Hi; lia].
  - intros (-> & Hp & _). now constructor.
  - intros Hchain. inversion Hchain as [|n0 w0 p0 Hw Hrest]; subst.
    apply IH in Hrest. destruct Hrest as (-> & Hp & Hbefore).
    rewrite Nat.iter_succ_r. repeat split; [assumption|].
    intros [|i] Hi; [exact Hw|].
    rewrite Nat.iter_succ_r. apply Hbefore. lia.
  - intros (-> & Hp & Hbefore). constructor.
    + apply (Hbefore O). lia.
    + apply IH. rewrite <- Nat.iter_succ_r. repeat split; [assumption|].
      intros i Hi. rewrite <- Nat.iter_succ_r. apply Hbefore. lia.
Qed.

(** X11: [to_address] returns the first raw pointer on the chain of [operator->]
    results, provided it lies within the allowed depth: the result is [p]
    exactly when [p] is the [n]-th result for some [n <= depth], [p] is a
    raw pointer and nothing before it on the chain is one. *)
Theorem to_address_first_raw_pointer (depth : nat) (w p : Ptr) :
  to_address depth w = Some p <->
  exists n,
    (n <= depth)%nat
    /\ p = Nat.iter n arrow w
    /\ is_pointer_v p = true
    /\ (forall i, (i < n)%nat -> is_pointer_v (Nat.iter i arrow w) = false).
Proof.
  split.
  - intros Hres.
    destruct (to_address_inv _ _ depth w p Hres) as (n & Hle & Hchain).
    exists n. split; [assumption|]. now apply unwraps_iter.
  - intros (n & Hle & Hchain). apply unwraps_iter in Hchain.
    exact (to_address_unwraps _ _ n w p Hchain depth Hle).
Qed.

(** X12: [to_address] returns nothing exactly when no value on the chain, up to
    the allowed depth, is a raw pointer. *)
Theorem to_address_none_iff (depth : nat) (w : Ptr) :
  to_address depth w = None <->
  forall i, (i <= depth)%nat -> is_pointer_v (Nat.iter i arrow w) = false.
Proof.
  revert w. induction depth as [|depth IH]; intros w;
    destruct (is_pointer_v w) eqn:Hw.
  - rewrite to_address_raw by assumption. split; [discriminate|].
    intros Hall. specialize (Hall O (Nat.le_refl _)). simpl in Hall. congruence.
  - rewrite to_address_out_of_depth by assumption. split; [|reflexivity].
    intros _ i Hi. replace i with O by lia. exact Hw.
  - rewrite to_address_raw by assumption. split; [discriminate|].
    intros Hall. specialize (Hall O (Nat.le_0_l _)). simpl in Hall. congruence.
  - rewrite to_address_fancy, IH by assumption. split.
    + intros Hall [|i] Hi; [exact Hw|].
      rewrite Nat.iter_succ_r. apply Hall. lia.
    + intros Hall i Hi. rewrite <- Nat.iter_succ_r. apply Hall. lia.
Qed.

(** X13: a result does not depend on the allowance: once [to_address] returns
    [p] at some depth it returns [p] at every larger depth. *)
Theorem to_address_depth_monotone (depth depth' : nat) (w p : Ptr) :
  to_address depth w = Some p ->
  (depth <= depth')%nat ->
  to_address depth' w = Some p.
Proof.
  intros Hres Hle.
  destruct (to_address_inv _ _ depth w p Hres) as (n & Hn & Hchain).
  apply (to_address_unwraps _ _ n w p Hchain). lia.
Qed.

(** A fancy pointer whose [operator->] returns the pointer itself is
    resolved at no depth. *)
Lemma to_address_self_arrow (depth : nat) (w : Ptr) :
  is_pointer_v w = false -> arrow w = w -> to_address depth w = None.
Proof.
  intros Hw Hself. induction depth as [|depth IH].
  - now apply to_address_out_of_depth.
  - rewrite to_address_fancy, Hself by assumption. exact IH.
Qed.

End ToAddressExtras.

Lemma to_address_depth_monotone_witness :
  to_address handle_is_pointer handle_arrow 7
             (fancy_pointer (fancy_pointer (raw_pointer 4096)))
  = Some (raw_pointer 4096).
Proof.
  apply (to_address_depth_monotone handle_is_pointer handle_arrow 2 7).
  - reflexivity.
  - lia.
Defined.
